(** * SwiftChat server: matchmaking and signaling relay

    A shallow embedding of the Socket.IO server of the repository: the two
    matchmaking queues, the private-room table, the two lookup maps
    [socketToRoom] and [socketToUsername], and one handler per inbound event.
    Handlers are functions from the server state to the new state and the
    list of events emitted, in emission order. *)

From stdpp Require Import gmap strings list fin_maps.

Local Open Scope string_scope.
Local Open Scope list_scope.
Local Open Scope nat_scope.

(** ** Strings as JavaScript sees them *)

(** [roomId] in a condition: the empty string is falsy, any other string is
    truthy. *)
Definition truthy (r : string) : bool := negb (String.eqb r "").

(** [a || b] on possibly-undefined strings. *)
Definition js_or (a b : option string) : option string :=
  match a with
  | Some r => if truthy r then Some r else b
  | None => b
  end.

(** [x] in a condition, for a possibly-undefined string. *)
Definition truthy_opt (x : option string) : bool :=
  match x with
  | Some r => truthy r
  | None => false
  end.

Definition upper_ascii (c : Ascii.ascii) : Ascii.ascii :=
  let n := Ascii.nat_of_ascii c in
  if Nat.leb 97 n && Nat.leb n 122 then Ascii.ascii_of_nat (n - 32) else c.

(** [String.prototype.toUpperCase] on the characters a base-36 rendering can
    hold (digits, ASCII letters and the dot). *)
Fixpoint toUpperCase (s : string) : string :=
  match s with
  | EmptyString => EmptyString
  | String c r => String (upper_ascii c) (toUpperCase r)
  end.

(** [generateRoomId]: [rnd] stands for [Math.random().toString(36)], the one
    nondeterministic value of the server; the function keeps
    [substring(2, 8)] of it, in upper case. *)
Definition generateRoomId (rnd : string) : string :=
  toUpperCase (String.substring 2 6 rnd).

(** ** Data model *)

(** An element of [textChatQueue] / [videoChatQueue]: [{socket, username}].
    The socket object is represented by its id. *)
Record WaitingEntry := mkEntry {
  entry_socket : string;
  entry_username : string
}.

(** A value of the [privateRooms] map: [{participants, messages}]. *)
Record PrivateRoom := mkRoom {
  participants : list string;
  messages : list string
}.

Inductive Signal := webrtc_offer | webrtc_answer | webrtc_ice_candidate.

(** Events the server emits. [sender] of [messageReceived] and [username] of
    [userLeftRoom] come from [socketToUsername.get], which may be
    undefined. The payload of a relayed signal is opaque. *)
Inductive ServerEvent :=
| chatMatched (partnerUsername roomId : string)
| videoChatMatched (partnerUsername roomId : string) (shouldCreateOffer : bool)
| roomJoined (ps : list string) (shouldCreateOffer : bool)
| userJoinedRoom (username : string) (ps : list string) (shouldCreateOffer : bool)
| messageReceived (message : string) (sender : option string)
| roomMessage (message sender : string)
| signalRelay (k : Signal) (payload : string)
| partnerDisconnected
| userLeftRoom (username : option string) (ps : list string).

(** An emission: the receiving socket and the event. *)
Definition Emission : Type := string * ServerEvent.

(** Events the server handles. [connection] is the namespace-level event;
    the others are the per-socket handlers registered in its callback. *)
Inductive ClientEvent :=
| connection
| joinTextChat (username : string)
| joinVideoChat (username : string)
| joinPrivateRoom (roomId username : string)
| sendMessage (message : string)
| sendRoomMessage (roomId message sender : string)
| signal (k : Signal) (payload : string) (roomId : option string)
| findNewPartner
| disconnect.

(** The module-level stores, plus [rooms]: the Socket.IO adapter's table
    from room name to the sockets that joined it, in join order. *)
Record State := mkState {
  textChatQueue : list WaitingEntry;
  videoChatQueue : list WaitingEntry;
  privateRooms : gmap string PrivateRoom;
  socketToRoom : gmap string string;
  socketToUsername : gmap string string;
  rooms : gmap string (list string)
}.

Definition init : State := mkState [] [] ∅ ∅ ∅ ∅.

Definition set_textChatQueue (q : list WaitingEntry) (s : State) : State :=
  mkState q (videoChatQueue s) (privateRooms s) (socketToRoom s)
          (socketToUsername s) (rooms s).

Definition set_videoChatQueue (q : list WaitingEntry) (s : State) : State :=
  mkState (textChatQueue s) q (privateRooms s) (socketToRoom s)
          (socketToUsername s) (rooms s).

Definition set_privateRooms (m : gmap string PrivateRoom) (s : State) : State :=
  mkState (textChatQueue s) (videoChatQueue s) m (socketToRoom s)
          (socketToUsername s) (rooms s).

Definition set_socketToRoom (m : gmap string string) (s : State) : State :=
  mkState (textChatQueue s) (videoChatQueue s) (privateRooms s) m
          (socketToUsername s) (rooms s).

Definition set_socketToUsername (m : gmap string string) (s : State) : State :=
  mkState (textChatQueue s) (videoChatQueue s) (privateRooms s)
          (socketToRoom s) m (rooms s).

Definition set_rooms (m : gmap string (list string)) (s : State) : State :=
  mkState (textChatQueue s) (videoChatQueue s) (privateRooms s)
          (socketToRoom s) (socketToUsername s) m.

(** ** The Socket.IO primitives the handlers call *)

Definition membersOf (s : State) (room : string) : list string :=
  default [] (rooms s !! room).

(** What is left of a room's member list once [socket] is taken out; the
    adapter drops a room that became empty. *)
Definition without (socket : string) (ms : list string) : option (list string) :=
  match filter (λ t, t ≠ socket) ms with
  | [] => None
  | ms' => Some ms'
  end.

(** [socket.join(room)] *)
Definition socket_join (socket room : string) (s : State) : State :=
  let ms := membersOf s room in
  set_rooms (if decide (socket ∈ ms) then rooms s
             else <[room := ms ++ [socket]]> (rooms s)) s.

(** [socket.leave(room)] *)
Definition socket_leave (socket room : string) (s : State) : State :=
  set_rooms (match without socket (membersOf s room) with
             | Some ms' => <[room := ms']> (rooms s)
             | None => delete room (rooms s)
             end) s.

(** Leaving every room, which Socket.IO does for a closing socket before it
    fires [disconnect]. *)
Definition socket_leaveAll (socket : string) (s : State) : State :=
  set_rooms (omap (without socket) (rooms s)) s.

(** [socket.emit(ev)] *)
Definition socket_emit (socket : string) (ev : ServerEvent) : list Emission :=
  [(socket, ev)].

(** [socket.to(room).emit(ev)]: every socket in the room but the sender. *)
Definition socket_to (socket room : string) (ev : ServerEvent) (s : State)
  : list Emission :=
  (λ t, (t, ev)) <$> filter (λ t, t ≠ socket) (membersOf s room).

(** ** Handlers *)

Definition Handler : Type := State → State * list Emission.

(** A new socket joins the room named by its own id. *)
Definition on_connection (socket : string) : Handler := λ s,
  (socket_join socket socket s, []).

Definition on_joinTextChat (rnd socket username : string) : Handler := λ s,
  let s := set_socketToUsername (<[socket := username]> (socketToUsername s)) s in
  match textChatQueue s with
  | partner :: rest =>
      let s := set_textChatQueue rest s in
      let roomId := "text_" +:+ generateRoomId rnd in
      let s := socket_join socket roomId s in
      let s := socket_join (entry_socket partner) roomId s in
      let s := set_socketToRoom (<[socket := roomId]> (socketToRoom s)) s in
      let s := set_socketToRoom
                 (<[entry_socket partner := roomId]> (socketToRoom s)) s in
      (s, socket_emit socket (chatMatched (entry_username partner) roomId)
          ++ socket_emit (entry_socket partner) (chatMatched username roomId))
  | [] =>
      (set_textChatQueue (textChatQueue s ++ [mkEntry socket username]) s, [])
  end.

Definition on_joinVideoChat (rnd socket username : string) : Handler := λ s,
  let s := set_socketToUsername (<[socket := username]> (socketToUsername s)) s in
  match videoChatQueue s with
  | partner :: rest =>
      let s := set_videoChatQueue rest s in
      let roomId := "video_" +:+ generateRoomId rnd in
      let s := socket_join socket roomId s in
      let s := socket_join (entry_socket partner) roomId s in
      let s := set_socketToRoom (<[socket := roomId]> (socketToRoom s)) s in
      let s := set_socketToRoom
                 (<[entry_socket partner := roomId]> (socketToRoom s)) s in
      (s, socket_emit socket
            (videoChatMatched (entry_username partner) roomId true)
          ++ socket_emit (entry_socket partner)
            (videoChatMatched username roomId false))
  | [] =>
      (set_videoChatQueue (videoChatQueue s ++ [mkEntry socket username]) s, [])
  end.

Definition newRoom : PrivateRoom := mkRoom [] [].

(** [room.participants] once the joiner's name was pushed unless included. *)
Definition joined (username : string) (ps : list string) : list string :=
  if decide (username ∈ ps) then ps else ps ++ [username].

Definition on_joinPrivateRoom (socket roomId username : string) : Handler := λ s,
  let s := set_socketToUsername (<[socket := username]> (socketToUsername s)) s in
  let s := set_socketToRoom (<[socket := roomId]> (socketToRoom s)) s in
  let s := socket_join socket roomId s in
  let s := set_privateRooms
             (match privateRooms s !! roomId with
              | Some _ => privateRooms s
              | None => <[roomId := newRoom]> (privateRooms s)
              end) s in
  let room := default newRoom (privateRooms s !! roomId) in
  let s := set_privateRooms
             (if decide (username ∈ participants room) then privateRooms s
              else <[roomId := mkRoom (participants room ++ [username])
                                      (messages room)]> (privateRooms s)) s in
  let ps := participants (default newRoom (privateRooms s !! roomId)) in
  (s, socket_emit socket
        (roomJoined ps
           (Nat.eqb (length ps) 2 && bool_decide (ps !! 0 = Some username)))
      ++ socket_to socket roomId
        (userJoinedRoom username ps
           (Nat.eqb (length ps) 2 && bool_decide (ps !! 0 ≠ Some username))) s).

Definition on_sendMessage (socket message : string) : Handler := λ s,
  let roomId := socketToRoom s !! socket in
  if truthy_opt roomId then
    (s, socket_to socket (default "" roomId)
          (messageReceived message (socketToUsername s !! socket)) s)
  else (s, []).

Definition on_sendRoomMessage (socket roomId message sender : string)
  : Handler := λ s,
  (s, socket_to socket roomId (roomMessage message sender) s).

(** The three [webrtc-*] handlers differ only in the event name and in the
    name of the payload field. *)
Definition on_signal (socket : string) (k : Signal) (payload : string)
    (data_roomId : option string) : Handler := λ s,
  let roomId := js_or (socketToRoom s !! socket) data_roomId in
  if truthy_opt roomId then
    (s, socket_to socket (default "" roomId) (signalRelay k payload) s)
  else (s, []).

Definition on_findNewPartner (socket : string) : Handler := λ s,
  let roomId := socketToRoom s !! socket in
  if truthy_opt roomId then
    let out := socket_to socket (default "" roomId) partnerDisconnected s in
    let s := socket_leave socket (default "" roomId) s in
    let s := set_socketToRoom (delete socket (socketToRoom s)) s in
    (s, out)
  else (s, []).

(** [findIndex] on the socket id followed by [splice(index, 1)]. *)
Fixpoint remove_first (socket : string) (q : list WaitingEntry)
  : list WaitingEntry :=
  match q with
  | [] => []
  | e :: r =>
      if decide (entry_socket e = socket) then r
      else e :: remove_first socket r
  end.

Definition on_disconnect (socket : string) : Handler := λ s,
  let s := socket_leaveAll socket s in
  let s := set_textChatQueue (remove_first socket (textChatQueue s)) s in
  let s := set_videoChatQueue (remove_first socket (videoChatQueue s)) s in
  let roomId := socketToRoom s !! socket in
  let '(s, out) :=
    if truthy_opt roomId then
      let r := default "" roomId in
      let out1 := socket_to socket r partnerDisconnected s in
      match privateRooms s !! r with
      | Some room =>
          let username := socketToUsername s !! socket in
          let ps := filter (λ p, Some p ≠ username) (participants room) in
          let s := set_privateRooms
                     (<[r := mkRoom ps (messages room)]> (privateRooms s)) s in
          let out2 := socket_to socket r (userLeftRoom username ps) s in
          let s := set_privateRooms
                     (if decide (length ps = 0) then delete r (privateRooms s)
                      else privateRooms s) s in
          (s, out1 ++ out2)
      | None => (s, out1)
      end
    else (s, []) in
  let s := set_socketToRoom (delete socket (socketToRoom s)) s in
  let s := set_socketToUsername (delete socket (socketToUsername s)) s in
  (s, out).

(** ** Dispatch and runs *)

(** One inbound event: the socket it arrives on, the event, and the string
    [Math.random().toString(36)] would produce if the handler asked. *)
Record Input := mkInput {
  in_socket : string;
  in_event : ClientEvent;
  in_rnd : string
}.

Definition step (i : Input) : Handler :=
  let socket := in_socket i in
  match in_event i with
  | connection => on_connection socket
  | joinTextChat username => on_joinTextChat (in_rnd i) socket username
  | joinVideoChat username => on_joinVideoChat (in_rnd i) socket username
  | joinPrivateRoom roomId username => on_joinPrivateRoom socket roomId username
  | sendMessage message => on_sendMessage socket message
  | sendRoomMessage roomId message sender =>
      on_sendRoomMessage socket roomId message sender
  | signal k payload roomId => on_signal socket k payload roomId
  | findNewPartner => on_findNewPartner socket
  | disconnect => on_disconnect socket
  end.

(** The state after a run of events, handled one at a time. *)
Definition exec (s : State) (tr : list Input) : State :=
  fold_left (λ s i, fst (step i s)) tr s.

(** Everything emitted during a run, in order. *)
Fixpoint emitted (s : State) (tr : list Input) : list Emission :=
  match tr with
  | [] => []
  | i :: tr' => snd (step i s) ++ emitted (fst (step i s)) tr'
  end.

(** The state in which the [k]-th event of a run from [init] is handled. *)
Definition state_at (tr : list Input) (k : nat) : State :=
  exec init (take k tr).

Definition reachable (s : State) : Prop := ∃ tr, exec init tr = s.

(** ** Vocabulary of the statements *)

(** The socket ids waiting in a queue, head first. *)
Definition queue_sockets (q : list WaitingEntry) : list string :=
  entry_socket <$> q.

(** Each queue holds at most one entry; a queued socket has a registered
    name; a socket bound by [socketToRoom] has joined that Socket.IO room and
    has a registered name. *)
Record Inv (s : State) : Prop := mkInv {
  inv_text_len : length (textChatQueue s) ≤ 1;
  inv_video_len : length (videoChatQueue s) ≤ 1;
  inv_text_named : ∀ e, e ∈ textChatQueue s →
                     is_Some (socketToUsername s !! entry_socket e);
  inv_video_named : ∀ e, e ∈ videoChatQueue s →
                      is_Some (socketToUsername s !! entry_socket e);
  inv_bound : ∀ a r, socketToRoom s !! a = Some r →
                a ∈ membersOf s r ∧ is_Some (socketToUsername s !! a)
}.

(** Recognisers for the event of a match and for the request that asks for
    one. *)
Definition is_chatMatched (m : Emission) : bool :=
  match snd m with
  | chatMatched _ _ => true
  | _ => false
  end.

Definition is_joinTextChat (i : Input) : bool :=
  match in_event i with
  | joinTextChat _ => true
  | _ => false
  end.

(** [chatMatched] events in a list of emissions; a pair is two of them. *)
Definition count_chatMatched (out : list Emission) : nat :=
  length (filter (λ m, is_chatMatched m = true) out).

(** [joinTextChat] requests of a run. *)
Definition count_joinTextChat (tr : list Input) : nat :=
  length (filter (λ i, is_joinTextChat i = true) tr).

(** One connection asks for a text partner twice. *)
Definition rejoin_run : list Input :=
  [ mkInput "sockA" connection "";
    mkInput "sockA" (joinTextChat "Anonymous") "0.4fzyo82m";
    mkInput "sockA" (joinTextChat "Anonymous") "0.k3j9x2pq" ].

(** Four connections, two matches, the same draw both times. *)
Definition collision_run : list Input :=
  [ mkInput "sockA" connection "";
    mkInput "sockB" connection "";
    mkInput "sockC" connection "";
    mkInput "sockD" connection "";
    mkInput "sockA" (joinTextChat "Ann") "0.7ar2m9";
    mkInput "sockB" (joinTextChat "Bob") "0.abcdefgh";
    mkInput "sockC" (joinTextChat "Cyd") "0.x81kq4";
    mkInput "sockD" (joinTextChat "Dan") "0.abcdefgh" ].

(** Entries of a queue that belong to connection [a]. *)
Definition queued_in (a : string) (q : list WaitingEntry) : nat :=
  length (filter (λ e, entry_socket e = a) q).

(** 1 when [socketToRoom] has an entry for [a], else 0. *)
Definition bound (s : State) (a : string) : nat :=
  match socketToRoom s !! a with
  | Some _ => 1
  | None => 0
  end.






(** The room the relay handlers find for a connection:
    [socketToRoom.get(socket.id)] when it passes the [if (roomId)] test. *)
Definition boundRoom (s : State) (a : string) : option string :=
  match socketToRoom s !! a with
  | Some r => if truthy r then Some r else None
  | None => None
  end.


(** B sits in a private room; A, bound to nothing, names that room in the
    payload of an offer. *)
Definition stray_offer_run : list Input :=
  [ mkInput "sockA" connection "";
    mkInput "sockB" connection "";
    mkInput "sockB" (joinPrivateRoom "AB12CD" "Bob") "" ].

(** A's offer, with the room id in the payload. *)
Definition stray_offer : Input :=
  mkInput "sockA" (signal webrtc_offer "sdp" (Some "AB12CD")) "".

(** The [k]-th event of the run is a [joinTextChat] of [a] that finds the
    text queue empty, so [a] is appended to it. *)
Definition enqueuedAt (tr : list Input) (k : nat) (a : string) : Prop :=
  ∃ u rnd, tr !! k = Some (mkInput a (joinTextChat u) rnd)
           ∧ textChatQueue (state_at tr k) = [].

(** The [k]-th event of the run is a [joinTextChat] that dequeues [a] as
    the partner of the arriving connection. *)
Definition matchedAt (tr : list Input) (k : nat) (a : string) : Prop :=
  ∃ i u p rest, tr !! k = Some i ∧ in_event i = joinTextChat u
                ∧ textChatQueue (state_at tr k) = p :: rest
                ∧ entry_socket p = a.

(** [a] joins the text queue at step [j], stays in it, and is matched with
    the arrival of step [k]. *)
Definition waits (tr : list Input) (j k : nat) (a : string) : Prop :=
  enqueuedAt tr j a ∧ j < k ∧ matchedAt tr k a
  ∧ ∀ m, j < m ≤ k → a ∈ queue_sockets (textChatQueue (state_at tr m)).

(** A joins, is matched with C; B joins, is matched with D. *)
Definition fifo_run : list Input :=
  [ mkInput "sockA" (joinTextChat "Ann") "0.1";
    mkInput "sockC" (joinTextChat "Cyd") "0.q7w2e9r4";
    mkInput "sockB" (joinTextChat "Bob") "0.2";
    mkInput "sockD" (joinTextChat "Dan") "0.z5x1c8v3" ].

(** The occupant list a join leaves in the room. *)
Definition occupants_after (s : State) (roomId username : string)
  : list string :=
  joined username (participants (default newRoom (privateRooms s !! roomId))).


(** A and B matched in a text room; A writes. *)
Definition chat_run : list Input :=
  [ mkInput "sockA" connection "";
    mkInput "sockB" connection "";
    mkInput "sockC" connection "";
    mkInput "sockA" (joinTextChat "Ann") "0.1";
    mkInput "sockB" (joinTextChat "Bob") "0.m3p7r1s5" ].

(** What the server keeps of a private room: no name twice, at least one
    name, and a message log that is never written. *)
Definition room_ok (room : PrivateRoom) : Prop :=
  NoDup (participants room) ∧ participants room ≠ [] ∧ messages room = [].

(** Every event of the run is a [joinTextChat]. *)
Definition only_joinTextChat (tr : list Input) : Prop :=
  Forall (λ i, is_joinTextChat i = true) tr.

(** The digits of a base-36 rendering, and the characters of a room code. *)
Definition is_base36 (c : Ascii.ascii) : bool :=
  let n := Ascii.nat_of_ascii c in
  (Nat.leb 48 n && Nat.leb n 57) || (Nat.leb 97 n && Nat.leb n 122).

Definition is_code_char (c : Ascii.ascii) : bool :=
  let n := Ascii.nat_of_ascii c in
  (Nat.leb 48 n && Nat.leb n 57) || (Nat.leb 65 n && Nat.leb n 90).

Fixpoint string_forall (P : Ascii.ascii → bool) (s : string) : bool :=
  match s with
  | EmptyString => true
  | String c r => P c && string_forall P r
  end.

(** A and B share the private room "AB12CD". *)
Definition private_run : list Input :=
  [ mkInput "sockA" connection "";
    mkInput "sockB" connection "";
    mkInput "sockA" (joinPrivateRoom "AB12CD" "Ann") "";
    mkInput "sockB" (joinPrivateRoom "AB12CD" "Bob") "" ].

(** A waits for a text partner. *)
Definition waiting_run : list Input :=
  [ mkInput "sockA" connection "";
    mkInput "sockA" (joinTextChat "Ann") "0.1" ].

(** ** Facts about the Socket.IO primitives *)

Section Adapter.
Implicit Types (s : State) (a b t r : string).

Lemma membersOf_join s a r r' :
  membersOf (socket_join a r s) r' =
    if decide (r = r') then
      (if decide (a ∈ membersOf s r) then membersOf s r
       else membersOf s r ++ [a])
    else membersOf s r'.
Proof.
  unfold socket_join, membersOf at 1. cbn.
  destruct (decide (a ∈ membersOf s r)) as [Hin|Hin].
  - by destruct (decide (r = r')) as [->|Hne].
  - destruct (decide (r = r')) as [->|Hne].
    + by rewrite lookup_insert_eq.
    + by rewrite lookup_insert_ne.
Qed.

Lemma elem_of_membersOf_join s a r t r' :
  t ∈ membersOf (socket_join a r s) r' ↔
  t ∈ membersOf s r' ∨ (t = a ∧ r = r').
Proof.
  rewrite membersOf_join.
  destruct (decide (r = r')) as [->|Hne].
  - destruct (decide (a ∈ membersOf s r')) as [Hin|Hin].
    + split; [tauto | intros [?|[-> _]]; done].
    + rewrite elem_of_app, list_elem_of_singleton. tauto.
  - split; [tauto | intros [?|[_ ?]]; done].
Qed.

Lemma without_lookup a (ms : list string) :
  default [] (without a ms) = filter (λ t, t ≠ a) ms.
Proof. unfold without. by destruct (filter _ ms). Qed.

Lemma membersOf_leave s a r r' :
  membersOf (socket_leave a r s) r' =
    if decide (r = r') then filter (λ t, t ≠ a) (membersOf s r)
    else membersOf s r'.
Proof.
  unfold socket_leave, membersOf at 1. cbn.
  pose proof (without_lookup a (membersOf s r)) as Hw.
  destruct (without a (membersOf s r)) as [ms'|];
    destruct (decide (r = r')) as [->|Hne].
  - by rewrite lookup_insert_eq.
  - by rewrite lookup_insert_ne.
  - by rewrite lookup_delete_eq.
  - by rewrite lookup_delete_ne.
Qed.

Lemma membersOf_leaveAll s a r :
  membersOf (socket_leaveAll a s) r = filter (λ t, t ≠ a) (membersOf s r).
Proof.
  unfold socket_leaveAll, membersOf. cbn. rewrite lookup_omap.
  destruct (rooms s !! r) as [ms|]; cbn.
  - apply without_lookup.
  - done.
Qed.

End Adapter.

(** ** Runs *)

Lemma exec_snoc s tr i : exec s (tr ++ [i]) = fst (step i (exec s tr)).
Proof. unfold exec. by rewrite fold_left_app. Qed.

Lemma exec_app s tr1 tr2 : exec s (tr1 ++ tr2) = exec (exec s tr1) tr2.
Proof. unfold exec. by rewrite fold_left_app. Qed.

Lemma reachable_init : reachable init.
Proof. by exists []. Qed.

Lemma reachable_step s i : reachable s → reachable (fst (step i s)).
Proof. intros [tr <-]. exists (tr ++ [i]). apply exec_snoc. Qed.

Lemma reachable_induction (P : State → Prop) :
  P init →
  (∀ s i, reachable s → P s → P (fst (step i s))) →
  ∀ s, reachable s → P s.
Proof.
  intros H0 Hstep s [tr <-].
  induction tr as [|i tr IH] using rev_ind; [done|].
  rewrite exec_snoc. apply Hstep; [by exists tr | done].
Qed.

Lemma reachable_state_at tr k : reachable (state_at tr k).
Proof. by exists (take k tr). Qed.

Lemma state_at_S tr k i :
  tr !! k = Some i → state_at tr (S k) = fst (step i (state_at tr k)).
Proof.
  intros Hk. unfold state_at.
  rewrite (take_S_r _ _ _ Hk). apply exec_snoc.
Qed.

(** ** Invariants of the reachable states *)

Lemma remove_first_length a q : length (remove_first a q) ≤ length q.
Proof.
  induction q as [|e q IH]; cbn; [lia|].
  destruct (decide _); cbn; lia.
Qed.

Lemma remove_first_subseteq a q e : e ∈ remove_first a q → e ∈ q.
Proof.
  induction q as [|e' q IH]; cbn; [done|].
  destruct (decide _); rewrite ?elem_of_cons; [tauto|].
  intros [->|?]; [by left | right; auto].
Qed.

Lemma remove_first_short a q e :
  length q ≤ 1 → e ∈ remove_first a q → entry_socket e ≠ a.
Proof.
  destruct q as [|e' [|? ?]]; cbn; [by intros _ ?%elem_of_nil| |lia].
  intros _. destruct (decide _) as [|Hne]; [by intros ?%elem_of_nil|].
  by intros ->%list_elem_of_singleton.
Qed.

Lemma is_Some_insert_mono (m : gmap string string) a u b :
  is_Some (m !! b) → is_Some (<[a := u]> m !! b).
Proof.
  intros Hb. destruct (decide (a = b)) as [->|Hne].
  - rewrite lookup_insert_eq. eauto.
  - by rewrite lookup_insert_ne.
Qed.

Lemma Inv_init : Inv init.
Proof.
  split; cbn; try lia; try (by intros ? ?%elem_of_nil).
  intros a r. by rewrite lookup_empty.
Qed.

Section Preservation.
Implicit Types (s : State) (a b r u : string).

Lemma Inv_connection a s : Inv s → Inv (fst (on_connection a s)).
Proof.
  intros [Ht Hv Htn Hvn Hb]. split; cbn; try done.
  intros b r Hbr. destruct (Hb b r Hbr) as [Hin Hu]. split; [|done].
  apply elem_of_membersOf_join. by left.
Qed.

(** The binding clause after a match: the arrival [a] and the dequeued
    [p] are bound to the new room and both joined it. *)
Local Ltac bound_after_match Hb Hp a p :=
  let b := fresh "b" in let r := fresh "r" in let Hbr := fresh "Hbr" in
  intros b r Hbr;
  destruct (decide (entry_socket p = b)) as [<-|?];
  [ rewrite lookup_insert_eq in Hbr; injection Hbr as <-;
    split; [|by apply is_Some_insert_mono];
    apply elem_of_membersOf_join; by right
  | rewrite lookup_insert_ne in Hbr by done;
    destruct (decide (a = b)) as [<-|?];
    [ rewrite lookup_insert_eq in Hbr; injection Hbr as <-;
      split; [|rewrite lookup_insert_eq; eauto];
      apply elem_of_membersOf_join; left;
      apply elem_of_membersOf_join; by right
    | rewrite lookup_insert_ne in Hbr by done;
      destruct (Hb b r Hbr); split; [|by apply is_Some_insert_mono];
      apply elem_of_membersOf_join; left;
      apply elem_of_membersOf_join; by left ] ].

Lemma Inv_joinTextChat rnd a u s :
  Inv s → Inv (fst (on_joinTextChat rnd a u s)).
Proof.
  intros [Ht Hv Htn Hvn Hb]. unfold on_joinTextChat. cbn.
  destruct (textChatQueue s) as [|p rest] eqn:Hq; cbn.
  - split; cbn.
    + lia.
    + done.
    + intros e ->%list_elem_of_singleton. cbn.
      rewrite lookup_insert_eq. eauto.
    + intros e He. by apply is_Some_insert_mono, Hvn.
    + intros b r Hbr. destruct (Hb b r Hbr). split; [done|].
      by apply is_Some_insert_mono.
  - cbn in Ht.
    assert (is_Some (socketToUsername s !! entry_socket p)) as Hp
      by (apply Htn; left).
    split; cbn.
    + lia.
    + done.
    + intros e He. apply is_Some_insert_mono, Htn. by right.
    + intros e He. by apply is_Some_insert_mono, Hvn.
    + bound_after_match Hb Hp a p.
Qed.

Lemma Inv_joinVideoChat rnd a u s :
  Inv s → Inv (fst (on_joinVideoChat rnd a u s)).
Proof.
  intros [Ht Hv Htn Hvn Hb]. unfold on_joinVideoChat. cbn.
  destruct (videoChatQueue s) as [|p rest] eqn:Hq; cbn.
  - split; cbn.
    + done.
    + lia.
    + intros e He. by apply is_Some_insert_mono, Htn.
    + intros e ->%list_elem_of_singleton. cbn.
      rewrite lookup_insert_eq. eauto.
    + intros b r Hbr. destruct (Hb b r Hbr). split; [done|].
      by apply is_Some_insert_mono.
  - cbn in Hv.
    assert (is_Some (socketToUsername s !! entry_socket p)) as Hp
      by (apply Hvn; left).
    split; cbn.
    + done.
    + lia.
    + intros e He. by apply is_Some_insert_mono, Htn.
    + intros e He. apply is_Some_insert_mono, Hvn. by right.
    + bound_after_match Hb Hp a p.
Qed.

Lemma Inv_joinPrivateRoom a r u s :
  Inv s → Inv (fst (on_joinPrivateRoom a r u s)).
Proof.
  intros [Ht Hv Htn Hvn Hb]. unfold on_joinPrivateRoom. cbn.
  split; cbn; try done.
  - intros e He. by apply is_Some_insert_mono, Htn.
  - intros e He. by apply is_Some_insert_mono, Hvn.
  - intros b r' Hbr. destruct (decide (a = b)) as [<-|Hab].
    + rewrite lookup_insert_eq in Hbr. injection Hbr as <-.
      split; [|rewrite lookup_insert_eq; eauto].
      apply elem_of_membersOf_join. by right.
    + rewrite lookup_insert_ne in Hbr by done.
      destruct (Hb b r' Hbr). split; [|by apply is_Some_insert_mono].
      apply elem_of_membersOf_join. by left.
Qed.

Lemma Inv_findNewPartner a s : Inv s → Inv (fst (on_findNewPartner a s)).
Proof.
  intros [Ht Hv Htn Hvn Hb]. unfold on_findNewPartner.
  destruct (truthy_opt (socketToRoom s !! a)); [|done].
  split; cbn -[socket_leave membersOf]; try done.
  intros b r Hbr. destruct (decide (a = b)) as [<-|Hab].
  - by rewrite lookup_delete_eq in Hbr.
  - rewrite lookup_delete_ne in Hbr by done.
    destruct (Hb b r Hbr). split; [|done].
    change (b ∈ membersOf
              (socket_leave a (default "" (socketToRoom s !! a)) s) r).
    rewrite membersOf_leave. destruct (decide _); [|done].
    subst. apply list_elem_of_filter. split; [congruence|done].
Qed.

Lemma is_Some_delete_ne (m : gmap string string) a b :
  a ≠ b → is_Some (m !! b) → is_Some (delete a m !! b).
Proof. intros Hne Hb. by rewrite lookup_delete_ne. Qed.

Lemma Inv_disconnect a s : Inv s → Inv (fst (on_disconnect a s)).
Proof.
  intros [Ht Hv Htn Hvn Hb]. unfold on_disconnect. cbn.
  set (q := if truthy_opt (socketToRoom s !! a) then _ else _).
  assert (textChatQueue q.1 = remove_first a (textChatQueue s) ∧
          videoChatQueue q.1 = remove_first a (videoChatQueue s) ∧
          socketToRoom q.1 = socketToRoom s ∧
          socketToUsername q.1 = socketToUsername s ∧
          rooms q.1 = omap (without a) (rooms s)) as (Eq1 & Eq2 & Eq3 & Eq4 & Eq5).
  { subst q. destruct (truthy_opt _); [|by repeat split].
    destruct (privateRooms s !! _); by repeat split. }
  destruct q as [s' out]. cbn in *.
  split; cbn.
  - rewrite Eq1. pose proof (remove_first_length a (textChatQueue s)). lia.
  - rewrite Eq2. pose proof (remove_first_length a (videoChatQueue s)). lia.
  - rewrite Eq1, Eq4. intros e He. apply is_Some_delete_ne.
    + symmetry. by apply (remove_first_short a (textChatQueue s)).
    + by eapply Htn, remove_first_subseteq.
  - rewrite Eq2, Eq4. intros e He. apply is_Some_delete_ne.
    + symmetry. by apply (remove_first_short a (videoChatQueue s)).
    + by eapply Hvn, remove_first_subseteq.
  - rewrite Eq3, Eq4. intros b r Hbr. destruct (decide (a = b)) as [<-|Hab].
    + by rewrite lookup_delete_eq in Hbr.
    + rewrite lookup_delete_ne in Hbr by done.
      destruct (Hb b r Hbr). split; [|by apply is_Some_delete_ne].
      change (b ∈ default [] (rooms s' !! r)). rewrite Eq5.
      change (b ∈ membersOf (socket_leaveAll a s) r).
      rewrite membersOf_leaveAll. apply list_elem_of_filter.
      split; [congruence|done].
Qed.

Lemma Inv_step i s : Inv s → Inv (fst (step i s)).
Proof.
  intros HI. unfold step. destruct (in_event i).
  - by apply Inv_connection.
  - by apply Inv_joinTextChat.
  - by apply Inv_joinVideoChat.
  - by apply Inv_joinPrivateRoom.
  - unfold on_sendMessage. by destruct (truthy_opt _).
  - done.
  - unfold on_signal. by destruct (truthy_opt _).
  - by apply Inv_findNewPartner.
  - by apply Inv_disconnect.
Qed.
End Preservation.

Lemma Inv_reachable s : reachable s → Inv s.
Proof.
  apply reachable_induction; [apply Inv_init|].
  intros s' i _. apply Inv_step.
Qed.

(** ** Matchmaking: pairs formed by [joinTextChat] *)

Lemma count_chatMatched_app out1 out2 :
  count_chatMatched (out1 ++ out2) =
    count_chatMatched out1 + count_chatMatched out2.
Proof. unfold count_chatMatched. by rewrite filter_app, length_app. Qed.

Lemma count_chatMatched_cons m out :
  count_chatMatched (m :: out) =
    (if is_chatMatched m then 1 else 0) + count_chatMatched out.
Proof.
  unfold count_chatMatched. rewrite filter_cons.
  destruct (is_chatMatched m); by case_decide.
Qed.

Lemma count_chatMatched_socket_to a r ev s :
  is_chatMatched (a, ev) = false → count_chatMatched (socket_to a r ev s) = 0.
Proof.
  intros Hev. unfold socket_to, count_chatMatched.
  induction (filter _ (membersOf s r)) as [|t l IH]; [done|].
  rewrite fmap_cons, filter_cons_False; [done|].
  unfold is_chatMatched in *. cbn in *. by rewrite Hev.
Qed.

Local Ltac relay_account :=
  cbn -[socket_to count_chatMatched];
  rewrite ?count_chatMatched_app, ?count_chatMatched_socket_to by done;
  change (count_chatMatched []) with 0; lia.

(** One event adds at most one to the number of [chatMatched] events plus
    the length of the text queue, and only if it is a [joinTextChat]. *)
Lemma step_text_account i s :
  count_chatMatched (snd (step i s)) + length (textChatQueue (fst (step i s)))
  ≤ length (textChatQueue s) + (if is_joinTextChat i then 1 else 0).
Proof.
  unfold step, is_joinTextChat. destruct (in_event i) as
    [|u|u|r u|m|r m sd|k p rid| |].
  - cbn. lia.
  - unfold on_joinTextChat. cbn.
    destruct (textChatQueue s) as [|p rest]; cbn; [lia|].
    repeat case_decide; try done; cbn; lia.
  - unfold on_joinVideoChat. cbn.
    destruct (videoChatQueue s) as [|p rest]; cbn; [lia|].
    repeat case_decide; try done; cbn; lia.
  - unfold on_joinPrivateRoom. cbn -[count_chatMatched socket_to].
    rewrite count_chatMatched_cons, count_chatMatched_socket_to by done.
    cbn. lia.
  - unfold on_sendMessage. destruct (truthy_opt _); relay_account.
  - relay_account.
  - unfold on_signal. destruct (truthy_opt _); relay_account.
  - unfold on_findNewPartner. destruct (truthy_opt _); relay_account.
  - unfold on_disconnect. cbn -[socket_to count_chatMatched].
    pose proof (remove_first_length (in_socket i) (textChatQueue s)).
    destruct (truthy_opt _); [|relay_account].
    destruct (privateRooms s !! _); relay_account.
Qed.

Lemma emitted_text_account tr : ∀ s,
  count_chatMatched (emitted s tr) + length (textChatQueue (exec s tr))
  ≤ length (textChatQueue s) + count_joinTextChat tr.
Proof.
  induction tr as [|i tr IH]; intros s; [cbn; lia|].
  cbn [emitted]. rewrite count_chatMatched_app.
  change (exec s (i :: tr)) with (exec (fst (step i s)) tr).
  specialize (IH (fst (step i s))).
  pose proof (step_text_account i s) as Hi.
  unfold count_joinTextChat in *. rewrite filter_cons.
  destruct (is_joinTextChat i); [rewrite decide_True by done
                                |rewrite decide_False by done]; cbn; lia.
Qed.

(** At most one [chatMatched] pair per two [joinTextChat] requests. *)
Lemma pairs_per_requests tr :
  count_chatMatched (emitted init tr) ≤ count_joinTextChat tr.
Proof. pose proof (emitted_text_account tr init). cbn in *. lia. Qed.

(** A match emits exactly one pair of [chatMatched] events, to the arriving
    socket and to the head of the queue, whoever that is. *)
Lemma joinTextChat_match rnd a u p rest s :
  textChatQueue s = p :: rest →
  snd (on_joinTextChat rnd a u s) =
    [(a, chatMatched (entry_username p) ("text_" +:+ generateRoomId rnd));
     (entry_socket p, chatMatched u ("text_" +:+ generateRoomId rnd))]
  ∧ textChatQueue (fst (on_joinTextChat rnd a u s)) = rest.
Proof. intros Hq. unfold on_joinTextChat. cbn. by rewrite Hq. Qed.

(** When the head of the queue is the requester's own entry, the pair is
    the requester with itself. *)
Lemma joinTextChat_own_entry rnd a u u0 rest s :
  textChatQueue s = mkEntry a u0 :: rest →
  snd (on_joinTextChat rnd a u s) =
    [(a, chatMatched u0 ("text_" +:+ generateRoomId rnd));
     (a, chatMatched u ("text_" +:+ generateRoomId rnd))].
Proof. intros Hq. by destruct (joinTextChat_match rnd a u _ _ s Hq). Qed.

Lemma joinTextChat_enqueue rnd a u s :
  textChatQueue s = [] →
  snd (on_joinTextChat rnd a u s) = []
  ∧ textChatQueue (fst (on_joinTextChat rnd a u s)) =
      textChatQueue s ++ [mkEntry a u].
Proof. intros Hq. unfold on_joinTextChat. cbn. by rewrite Hq. Qed.

(** C1, at the run [rejoin_run]: a connection that sends [joinTextChat]
    while it is itself the only waiting entry is dequeued as its own partner;
    both [chatMatched] events of the pair go to it and it is bound to the new
    room, alone. *)
Theorem joinTextChat_self_match :
  emitted init rejoin_run =
    [("sockA", chatMatched "Anonymous" "text_K3J9X2");
     ("sockA", chatMatched "Anonymous" "text_K3J9X2")]
  ∧ socketToRoom (exec init rejoin_run) !! "sockA" = Some "text_K3J9X2"
  ∧ membersOf (exec init rejoin_run) "text_K3J9X2" = ["sockA"]
  ∧ textChatQueue (exec init rejoin_run) = [].
Proof. by vm_compute. Qed.

(** ** Room identifiers *)

(** The identifier of a random room is a function of the random draw alone:
    the state, and so the rooms that are live, play no part in it. *)
Lemma roomId_from_draw_only rnd a u p rest s :
  textChatQueue s = p :: rest →
  socketToRoom (fst (on_joinTextChat rnd a u s)) !! a =
    Some ("text_" +:+ generateRoomId rnd).
Proof.
  intros Hq. unfold on_joinTextChat. cbn. rewrite Hq. cbn.
  destruct (decide (entry_socket p = a)) as [->|Hne].
  - by rewrite lookup_insert_eq.
  - by rewrite lookup_insert_ne, lookup_insert_eq.
Qed.

(** C2, at the run [collision_run]: the second match is given the
    identifier of the room the first pair still occupies; the four
    connections end up bound to one room and a message of the first pair
    reaches the second. *)
Theorem generateRoomId_collision :
  let before := exec init (take 7 collision_run) in
  let after := exec init collision_run in
  socketToRoom before !! "sockA" = Some "text_ABCDEF"
  ∧ socketToRoom before !! "sockB" = Some "text_ABCDEF"
  ∧ socketToRoom after !! "sockA" = Some "text_ABCDEF"
  ∧ socketToRoom after !! "sockB" = Some "text_ABCDEF"
  ∧ socketToRoom after !! "sockC" = Some "text_ABCDEF"
  ∧ socketToRoom after !! "sockD" = Some "text_ABCDEF"
  ∧ membersOf after "text_ABCDEF" = ["sockB"; "sockA"; "sockD"; "sockC"]
  ∧ snd (step (mkInput "sockA" (sendMessage "hello") "") after) =
      [("sockB", messageReceived "hello" (Some "Ann"));
       ("sockD", messageReceived "hello" (Some "Ann"));
       ("sockC", messageReceived "hello" (Some "Ann"))].
Proof. by vm_compute. Qed.

(** ** Where a connection is: queues and room binding *)

Section Places.
Implicit Types (s : State) (a b : string) (q : list WaitingEntry).


Lemma queued_in_snoc a e q :
  queued_in a (q ++ [e]) =
    queued_in a q + (if decide (entry_socket e = a) then 1 else 0).
Proof.
  unfold queued_in. rewrite filter_app, length_app, filter_cons.
  by destruct (decide _).
Qed.




Lemma bound_le s a : bound s a ≤ 1.
Proof. unfold bound. destruct (_ !! _); lia. Qed.
End Places.

Section Exclusive.
Implicit Types (s : State) (a b : string).



End Exclusive.


(** A connection that asks for a text partner and then for a video partner
    waits in both queues. *)
Example both_queues :
  let s := exec init [ mkInput "sockA" connection "";
                       mkInput "sockA" (joinTextChat "Anonymous") "0.1";
                       mkInput "sockA" (joinVideoChat "Anonymous") "0.2" ] in
  queued_in "sockA" (textChatQueue s) = 1
  ∧ queued_in "sockA" (videoChatQueue s) = 1.
Proof. by vm_compute. Qed.




(** ** Relay *)


Lemma boundRoom_Some s a r :
  boundRoom s a = Some r →
  socketToRoom s !! a = Some r ∧ truthy r = true.
Proof.
  unfold boundRoom. destruct (socketToRoom s !! a) as [r'|]; [|done].
  destruct (truthy r') eqn:Ht; [|done]. by intros [= ->].
Qed.


Example stray_offer_delivered :
  snd (step stray_offer (exec init stray_offer_run)) =
    [("sockB", signalRelay webrtc_offer "sdp")].
Proof. by vm_compute. Qed.



(** ** FIFO order of the matchmaker *)

Lemma joinVideoChat_match rnd a u p rest s :
  videoChatQueue s = p :: rest →
  snd (on_joinVideoChat rnd a u s) =
    [(a, videoChatMatched (entry_username p)
           ("video_" +:+ generateRoomId rnd) true);
     (entry_socket p, videoChatMatched u
           ("video_" +:+ generateRoomId rnd) false)]
  ∧ videoChatQueue (fst (on_joinVideoChat rnd a u s)) = rest.
Proof. intros Hq. unfold on_joinVideoChat. cbn. by rewrite Hq. Qed.

Lemma joinVideoChat_enqueue rnd a u s :
  videoChatQueue s = [] →
  snd (on_joinVideoChat rnd a u s) = []
  ∧ videoChatQueue (fst (on_joinVideoChat rnd a u s)) =
      videoChatQueue s ++ [mkEntry a u].
Proof. intros Hq. unfold on_joinVideoChat. cbn. by rewrite Hq. Qed.

(** Whoever is enqueued later finds the queue empty, so an earlier waiter
    has been matched by then. *)
Lemma waits_ordered tr i i' j j' a b :
  waits tr i i' a → waits tr j j' b → i < j → i' < j.
Proof.
  intros (_ & _ & _ & Hstay) ((u & rnd & _ & Hempty) & _) Hij.
  destruct (decide (i' < j)) as [|Hge]; [done|].
  specialize (Hstay j ltac:(lia)). rewrite Hempty in Hstay.
  by apply elem_of_nil in Hstay.
Qed.

(** C5: a join request that finds its queue non-empty removes the head entry
    and matches the arrival with it, leaving the rest of the queue in order;
    one that finds it empty appends the new entry at the tail; so when A
    joins the text queue before B and each is matched with a later arrival,
    A is matched no later than B. *)
Theorem matchmaker_fifo :
  (∀ rnd a u p rest s, textChatQueue s = p :: rest →
     snd (on_joinTextChat rnd a u s) =
       [(a, chatMatched (entry_username p) ("text_" +:+ generateRoomId rnd));
        (entry_socket p, chatMatched u ("text_" +:+ generateRoomId rnd))]
     ∧ textChatQueue (fst (on_joinTextChat rnd a u s)) = rest)
  ∧ (∀ rnd a u s, textChatQueue s = [] →
     snd (on_joinTextChat rnd a u s) = []
     ∧ textChatQueue (fst (on_joinTextChat rnd a u s)) =
         textChatQueue s ++ [mkEntry a u])
  ∧ (∀ rnd a u p rest s, videoChatQueue s = p :: rest →
     snd (on_joinVideoChat rnd a u s) =
       [(a, videoChatMatched (entry_username p)
              ("video_" +:+ generateRoomId rnd) true);
        (entry_socket p, videoChatMatched u
              ("video_" +:+ generateRoomId rnd) false)]
     ∧ videoChatQueue (fst (on_joinVideoChat rnd a u s)) = rest)
  ∧ (∀ rnd a u s, videoChatQueue s = [] →
     snd (on_joinVideoChat rnd a u s) = []
     ∧ videoChatQueue (fst (on_joinVideoChat rnd a u s)) =
         videoChatQueue s ++ [mkEntry a u])
  ∧ (∀ tr i i' j j' a b,
       waits tr i i' a → waits tr j j' b → i < j → i' ≤ j').
Proof.
  split; [|split; [|split; [|split]]].
  - intros. by apply joinTextChat_match.
  - intros. by apply joinTextChat_enqueue.
  - intros. by apply joinVideoChat_match.
  - intros. by apply joinVideoChat_enqueue.
  - intros tr i i' j j' a b Ha Hb Hij.
    pose proof (waits_ordered _ _ _ _ _ _ _ Ha Hb Hij).
    destruct Hb as (_ & ? & _). lia.
Qed.

Lemma fifo_run_waits :
  waits fifo_run 0 1 "sockA" ∧ waits fifo_run 2 3 "sockB".
Proof.
  split.
  - split; [by exists "Ann", "0.1"|]. split; [lia|]. split.
    + by exists (mkInput "sockC" (joinTextChat "Cyd") "0.q7w2e9r4"), "Cyd",
        (mkEntry "sockA" "Ann"), [].
    + intros m Hm. assert (m = 1) as -> by lia. vm_compute. by left.
  - split; [by exists "Bob", "0.2"|]. split; [lia|]. split.
    + by exists (mkInput "sockD" (joinTextChat "Dan") "0.z5x1c8v3"), "Dan",
        (mkEntry "sockB" "Bob"), [].
    + intros m Hm. assert (m = 3) as -> by lia. vm_compute. by left.
Qed.

(** On [fifo_run]: C's request pops A, B's request finds the queue empty and
    is appended, and A, queued before B, is matched first. *)
Lemma matchmaker_fifo_witness :
  textChatQueue (state_at fifo_run 1) = [mkEntry "sockA" "Ann"]
  ∧ textChatQueue (state_at fifo_run 2) = []
  ∧ textChatQueue (state_at fifo_run 3) = [] ++ [mkEntry "sockB" "Bob"]
  ∧ waits fifo_run 0 1 "sockA" ∧ waits fifo_run 2 3 "sockB" ∧ 0 < 2
  ∧ 1 ≤ 3.
Proof.
  destruct matchmaker_fifo as (Hpop & Hpush & _ & _ & Hord).
  destruct fifo_run_waits as [Ha Hb].
  split; [reflexivity|].
  split; [apply (Hpop "0.q7w2e9r4" "sockC" "Cyd" (mkEntry "sockA" "Ann") []
                   (state_at fifo_run 1) eq_refl)|].
  split; [apply (Hpush "0.2" "sockB" "Bob" (state_at fifo_run 2) eq_refl)|].
  split; [exact Ha|]. split; [exact Hb|]. split; [lia|].
  apply (Hord fifo_run 0 1 2 3 "sockA" "sockB" Ha Hb). lia.
Defined.

(** ** Offer roles *)

(** C6: when A sends [joinVideoChat] and is queued, and B sends it next, the
    server emits [videoChatMatched] to both with one and the same room id, to
    B (the arrival) with [shouldCreateOffer] true and to A (the waiter) with
    [shouldCreateOffer] false. *)
Theorem videoChatMatched_roles (s : State) (a ua rndA b ub rndB : string) :
  videoChatQueue s = [] →
  let run := [ mkInput a (joinVideoChat ua) rndA;
               mkInput b (joinVideoChat ub) rndB ] in
  let roomId := "video_" +:+ generateRoomId rndB in
  videoChatQueue (exec s (take 1 run)) = [mkEntry a ua]
  ∧ emitted s run =
      [ (b, videoChatMatched ua roomId true);
        (a, videoChatMatched ub roomId false) ]
  ∧ socketToRoom (exec s run) !! a = Some roomId
  ∧ socketToRoom (exec s run) !! b = Some roomId.
Proof.
  intros Hq. cbn. unfold on_joinVideoChat. cbn. rewrite Hq. cbn.
  repeat split.
  - by rewrite lookup_insert_eq.
  - destruct (decide (a = b)) as [->|Hne].
    + by rewrite lookup_insert_eq.
    + by rewrite lookup_insert_ne, lookup_insert_eq.
Qed.

(** From the initial state, with A and B as the two callers. *)
Lemma videoChatMatched_roles_witness :
  videoChatQueue init = []
  ∧ emitted init [ mkInput "sockA" (joinVideoChat "Ann") "0.1";
                   mkInput "sockB" (joinVideoChat "Bob") "0.h4n8t2y6" ] =
      [ ("sockB", videoChatMatched "Ann" "video_H4N8T2" true);
        ("sockA", videoChatMatched "Bob" "video_H4N8T2" false) ].
Proof.
  split; [reflexivity|].
  apply (videoChatMatched_roles init "sockA" "Ann" "0.1"
           "sockB" "Bob" "0.h4n8t2y6" eq_refl).
Defined.

(** ** Private rooms *)


Lemma joinPrivateRoom_participants s a r u :
  privateRooms (fst (on_joinPrivateRoom a r u s)) !! r =
    Some (mkRoom (occupants_after s r u)
                 (messages (default newRoom (privateRooms s !! r)))).
Proof.
  unfold on_joinPrivateRoom, occupants_after, joined. cbn.
  destruct (privateRooms s !! r) as [room|] eqn:Hr; cbn.
  - rewrite Hr. cbn. destruct (decide _).
    + rewrite Hr. by destruct room.
    + by rewrite lookup_insert_eq.
  - rewrite lookup_insert_eq. cbn. rewrite decide_False by apply not_elem_of_nil.
    by rewrite lookup_insert_eq.
Qed.


(** The scenario of the two-party room: A creates "AB12CD", then B joins. *)
Example private_room_scenario :
  let run := [ mkInput "sockA" connection "";
               mkInput "sockB" connection "";
               mkInput "sockA" (joinPrivateRoom "AB12CD" "A") "";
               mkInput "sockB" (joinPrivateRoom "AB12CD" "B") "" ] in
  emitted init run =
    [ ("sockA", roomJoined ["A"] false);
      ("sockB", roomJoined ["A"; "B"] false);
      ("sockA", userJoinedRoom "B" ["A"; "B"] true) ].
Proof. by vm_compute. Qed.

(** C9: when the caller's display name is already in the room's occupant
    list, [joinPrivateRoom] leaves the room table, and with it that list,
    unchanged, and reports the same list. *)
Theorem joinPrivateRoom_idempotent (s : State) (a roomId username : string)
    (room : PrivateRoom) :
  privateRooms s !! roomId = Some room →
  username ∈ participants room →
  privateRooms (fst (on_joinPrivateRoom a roomId username s)) = privateRooms s
  ∧ occupants_after s roomId username = participants room.
Proof.
  intros Hr Hin. unfold occupants_after, joined, on_joinPrivateRoom. cbn.
  rewrite Hr. cbn. rewrite Hr. cbn. by rewrite !decide_True by done.
Qed.

(** A joins the room it is already listed in. *)
Lemma joinPrivateRoom_idempotent_witness :
  let s := exec init [ mkInput "sockA" (joinPrivateRoom "AB12CD" "A") "";
                       mkInput "sockB" (joinPrivateRoom "AB12CD" "B") "" ] in
  privateRooms s !! "AB12CD" = Some (mkRoom ["A"; "B"] [])
  ∧ "A" ∈ ["A"; "B"]
  ∧ privateRooms (fst (on_joinPrivateRoom "sockA" "AB12CD" "A" s)) !! "AB12CD"
    = Some (mkRoom ["A"; "B"] []).
Proof.
  intros s.
  assert (privateRooms s !! "AB12CD" = Some (mkRoom ["A"; "B"] [])) as Hr
    by reflexivity.
  assert ("A" ∈ ["A"; "B"]) as Hin by (by left).
  split; [exact Hr|]. split; [exact Hin|].
  destruct (joinPrivateRoom_idempotent s "sockA" "AB12CD" "A" _ Hr Hin)
    as [-> _].
  exact Hr.
Defined.

(** Joining twice in a row with the same name leaves the list as the first
    join left it. *)
Lemma joinPrivateRoom_twice s a a' r u :
  let s1 := fst (on_joinPrivateRoom a r u s) in
  privateRooms (fst (on_joinPrivateRoom a' r u s1)) = privateRooms s1.
Proof.
  intros s1.
  pose proof (joinPrivateRoom_participants s a r u) as Hps. fold s1 in Hps.
  assert (u ∈ occupants_after s r u) as Hin.
  { unfold occupants_after, joined. destruct (decide _); [done|].
    apply elem_of_app. right. by left. }
  clearbody s1. unfold on_joinPrivateRoom. cbn. rewrite Hps. cbn.
  rewrite Hps. cbn. by rewrite decide_True.
Qed.

(** ** Room messages *)


(** ** Room membership holds each socket once *)







(** ** Chat messages within a room *)



(** Membership is by Socket.IO room: B, matched with A and later matched
    again with C without having left, is still in the first room and
    receives what A writes there. *)
Example earlier_room_still_receives :
  let s := exec init [ mkInput "sockA" connection "";
                       mkInput "sockB" connection "";
                       mkInput "sockC" connection "";
                       mkInput "sockA" (joinTextChat "Ann") "0.1";
                       mkInput "sockB" (joinTextChat "Bob") "0.m3p7r1s5";
                       mkInput "sockB" (joinTextChat "Bob") "0.2";
                       mkInput "sockC" (joinTextChat "Cyd") "0.w9e4u6i2" ] in
  socketToRoom s !! "sockB" = Some "text_W9E4U6"
  ∧ membersOf s "text_M3P7R1" = ["sockB"; "sockA"]
  ∧ snd (step (mkInput "sockA" (sendMessage "hello") "") s) =
      [("sockB", messageReceived "hello" (Some "Ann"))].
Proof. by vm_compute. Qed.

(** ** Further properties of the handlers *)

Lemma State_eta s :
  s = mkState (textChatQueue s) (videoChatQueue s) (privateRooms s)
        (socketToRoom s) (socketToUsername s) (rooms s).
Proof. by destruct s. Qed.

(** The fields a [disconnect] always sets, whatever the room branch does. *)
Lemma disconnect_fields a s :
  textChatQueue (fst (on_disconnect a s)) = remove_first a (textChatQueue s)
  ∧ videoChatQueue (fst (on_disconnect a s)) =
      remove_first a (videoChatQueue s)
  ∧ socketToRoom (fst (on_disconnect a s)) = delete a (socketToRoom s)
  ∧ socketToUsername (fst (on_disconnect a s)) = delete a (socketToUsername s)
  ∧ rooms (fst (on_disconnect a s)) = omap (without a) (rooms s).
Proof.
  unfold on_disconnect. cbn.
  destruct (truthy_opt _); [destruct (privateRooms s !! _)|]; by repeat split.
Qed.

Lemma membersOf_disconnect a s r :
  membersOf (fst (on_disconnect a s)) r = filter (λ t, t ≠ a) (membersOf s r).
Proof.
  destruct (disconnect_fields a s) as (_ & _ & _ & _ & E).
  unfold membersOf at 1. rewrite E.
  change (membersOf (socket_leaveAll a s) r = filter (λ t, t ≠ a) (membersOf s r)).
  apply membersOf_leaveAll.
Qed.

Lemma queued_in_remove_first_short a q :
  length q ≤ 1 → queued_in a (remove_first a q) = 0.
Proof.
  destruct q as [|e [|? ?]]; cbn; [done| |lia].
  intros _. destruct (decide (entry_socket e = a)) as [|Hne]; [done|].
  unfold queued_in. by rewrite filter_cons_False.
Qed.

(** X1: in every reachable state each matchmaking queue holds at most one
    entry. *)
Theorem queues_hold_at_most_one (s : State) :
  reachable s →
  length (textChatQueue s) ≤ 1 ∧ length (videoChatQueue s) ≤ 1.
Proof.
  intros H%Inv_reachable. split; [apply (inv_text_len s H)|apply (inv_video_len s H)].
Qed.

(** On [waiting_run] the text queue holds its one entry. *)
Lemma queues_hold_at_most_one_witness :
  reachable (exec init waiting_run)
  ∧ length (textChatQueue (exec init waiting_run)) ≤ 1.
Proof.
  assert (reachable (exec init waiting_run)) as H by (by exists waiting_run).
  split; [exact H|]. apply (queues_hold_at_most_one _ H).
Defined.

(** X2: in every reachable state a connection that [socketToRoom] binds to a
    room has joined the Socket.IO room of that name and has a registered
    display name. *)
Theorem bound_socket_is_member (s : State) (a r : string) :
  reachable s →
  socketToRoom s !! a = Some r →
  a ∈ membersOf s r ∧ is_Some (socketToUsername s !! a).
Proof. intros H%Inv_reachable. apply (inv_bound s H). Qed.

(** On [chat_run], for A. *)
Lemma bound_socket_is_member_witness :
  reachable (exec init chat_run)
  ∧ socketToRoom (exec init chat_run) !! "sockA" = Some "text_M3P7R1"
  ∧ "sockA" ∈ membersOf (exec init chat_run) "text_M3P7R1".
Proof.
  assert (reachable (exec init chat_run)) as H by (by exists chat_run).
  assert (socketToRoom (exec init chat_run) !! "sockA" = Some "text_M3P7R1")
    as Hb by reflexivity.
  split; [exact H|]. split; [exact Hb|].
  apply (bound_socket_is_member _ "sockA" "text_M3P7R1" H Hb).
Defined.

(** X3: after [disconnect] in a reachable state the connection waits in no
    queue, has no entry in [socketToRoom] or [socketToUsername], and is in no
    Socket.IO room. *)
Theorem disconnect_cleanup (s : State) (a : string) :
  reachable s →
  let s' := fst (on_disconnect a s) in
  queued_in a (textChatQueue s') = 0
  ∧ queued_in a (videoChatQueue s') = 0
  ∧ socketToRoom s' !! a = None
  ∧ socketToUsername s' !! a = None
  ∧ ∀ r, a ∉ membersOf s' r.
Proof.
  intros HI%Inv_reachable s'. subst s'.
  destruct (disconnect_fields a s) as (E1 & E2 & E3 & E4 & _).
  rewrite E1, E2, E3, E4.
  split; [apply queued_in_remove_first_short, (inv_text_len s HI)|].
  split; [apply queued_in_remove_first_short, (inv_video_len s HI)|].
  split; [apply lookup_delete_eq|]. split; [apply lookup_delete_eq|].
  intros r. rewrite membersOf_disconnect. intros Hin%list_elem_of_filter.
  by destruct Hin.
Qed.

(** A, waiting on [waiting_run], disconnects. *)
Lemma disconnect_cleanup_witness :
  reachable (exec init waiting_run)
  ∧ queued_in "sockA" (textChatQueue (exec init waiting_run)) = 1
  ∧ queued_in "sockA"
      (textChatQueue (fst (on_disconnect "sockA" (exec init waiting_run)))) = 0.
Proof.
  assert (reachable (exec init waiting_run)) as H by (by exists waiting_run).
  split; [exact H|]. split; [reflexivity|].
  apply (disconnect_cleanup _ "sockA" H).
Defined.

Lemma remove_first_twice a q :
  length q ≤ 1 → remove_first a (remove_first a q) = remove_first a q.
Proof.
  destruct q as [|e [|? ?]]; cbn; [done| |lia].
  intros _. destruct (decide (entry_socket e = a)) as [|Hne]; [done|].
  cbn. by rewrite decide_False.
Qed.

Lemma without_twice a (ms : list string) :
  without a ms ≫= without a = without a ms.
Proof.
  unfold without at 2 3.
  destruct (filter (λ t, t ≠ a) ms) as [|t ms'] eqn:E; [done|].
  cbn. unfold without. rewrite <- E, list_filter_filter.
  rewrite (list_filter_iff _ (λ t, t ≠ a)) by tauto. by rewrite E.
Qed.

Lemma leaveAll_twice a (m : gmap string (list string)) :
  omap (without a) (omap (without a) m) = omap (without a) m.
Proof.
  apply map_eq. intros r. rewrite !lookup_omap.
  destruct (m !! r) as [ms|]; cbn; [|done]. apply without_twice.
Qed.

(** What [disconnect] does for a connection with no bound room. *)
Lemma disconnect_unbound a s :
  truthy_opt (socketToRoom s !! a) = false →
  on_disconnect a s =
    (mkState (remove_first a (textChatQueue s))
             (remove_first a (videoChatQueue s))
             (privateRooms s)
             (delete a (socketToRoom s))
             (delete a (socketToUsername s))
             (omap (without a) (rooms s)), []).
Proof. intros H. unfold on_disconnect. cbn. by rewrite H. Qed.

(** X4: a second [disconnect] of the same connection changes nothing and
    emits nothing. *)
Theorem disconnect_twice (s : State) (a : string) :
  reachable s →
  on_disconnect a (fst (on_disconnect a s)) = (fst (on_disconnect a s), []).
Proof.
  intros HI%Inv_reachable.
  destruct (disconnect_fields a s) as (E1 & E2 & E3 & E4 & E5).
  rewrite disconnect_unbound by (by rewrite E3, lookup_delete_eq).
  f_equal. rewrite (State_eta (fst (on_disconnect a s))) at 7.
  rewrite E1, E2, E3, E4, E5.
  rewrite !remove_first_twice
    by (apply (inv_text_len s HI) || apply (inv_video_len s HI)).
  rewrite leaveAll_twice.
  f_equal; apply map_eq; intros k;
    (destruct (decide (a = k)) as [->|];
     [by rewrite !lookup_delete_eq | by rewrite !lookup_delete_ne]).
Qed.

(** On [chat_run], for A. *)
Lemma disconnect_twice_witness :
  reachable (exec init chat_run)
  ∧ snd (on_disconnect "sockA" (fst (on_disconnect "sockA" (exec init chat_run))))
    = [].
Proof.
  assert (reachable (exec init chat_run)) as H by (by exists chat_run).
  split; [exact H|].
  by rewrite (disconnect_twice _ "sockA" H).
Defined.

(** The private-room table after the [disconnect] of a connection bound to
    a private room and registered under [u]. *)
Lemma disconnect_private_room_table s a r u room :
  boundRoom s a = Some r →
  socketToUsername s !! a = Some u →
  privateRooms s !! r = Some room →
  let ps := filter (λ p, p ≠ u) (participants room) in
  privateRooms (fst (on_disconnect a s)) !! r =
    (if decide (ps = []) then None else Some (mkRoom ps (messages room)))
  ∧ ∀ r', r' ≠ r →
      privateRooms (fst (on_disconnect a s)) !! r' = privateRooms s !! r'.
Proof.
  intros [Hr Ht]%boundRoom_Some Hu Hroom ps.
  assert (filter (λ p, Some p ≠ Some u) (participants room) = ps) as Hps.
  { apply list_filter_iff. intros p. split; congruence. }
  unfold on_disconnect. cbn. rewrite Hr. cbn. rewrite Ht, Hroom, Hu. cbn.
  rewrite Hps. split.
  - destruct (decide (length ps = 0)) as [Hl|Hl].
    + rewrite lookup_delete_eq, decide_True; [done|].
      by apply nil_length_inv.
    + rewrite lookup_insert_eq, decide_False; [done|].
      intros E. by rewrite E in Hl.
  - intros r' Hne. destruct (decide (length ps = 0)).
    + by rewrite lookup_delete_ne, lookup_insert_ne.
    + by rewrite lookup_insert_ne.
Qed.

(** X5: when a connection bound to a private room disconnects, its display
    name is filtered out of that room's occupant list, the room is deleted
    exactly when no name is left, and no other private room changes. *)
Theorem disconnect_private_room (s : State) (a r u : string)
    (room : PrivateRoom) :
  boundRoom s a = Some r →
  socketToUsername s !! a = Some u →
  privateRooms s !! r = Some room →
  let ps := filter (λ p, p ≠ u) (participants room) in
  privateRooms (fst (on_disconnect a s)) !! r =
    (if decide (ps = []) then None else Some (mkRoom ps (messages room)))
  ∧ ∀ r', r' ≠ r →
      privateRooms (fst (on_disconnect a s)) !! r' = privateRooms s !! r'.
Proof. apply disconnect_private_room_table. Qed.

(** On [private_run], A leaves and the room keeps Bob. *)
Lemma disconnect_private_room_witness :
  boundRoom (exec init private_run) "sockA" = Some "AB12CD"
  ∧ socketToUsername (exec init private_run) !! "sockA" = Some "Ann"
  ∧ privateRooms (exec init private_run) !! "AB12CD"
    = Some (mkRoom ["Ann"; "Bob"] [])
  ∧ privateRooms (fst (on_disconnect "sockA" (exec init private_run)))
      !! "AB12CD" = Some (mkRoom ["Bob"] []).
Proof.
  split; [reflexivity|]. split; [reflexivity|]. split; [reflexivity|].
  apply (disconnect_private_room (exec init private_run) "sockA" "AB12CD"
           "Ann" (mkRoom ["Ann"; "Bob"] []) eq_refl eq_refl eq_refl).
Defined.







(** X8: a second [findNewPartner] in a row changes nothing and emits
    nothing. *)
Theorem findNewPartner_twice (s : State) (a : string) :
  on_findNewPartner a (fst (on_findNewPartner a s))
  = (fst (on_findNewPartner a s), []).
Proof.
  unfold on_findNewPartner at 1 3.
  destruct (truthy_opt (socketToRoom s !! a)) eqn:Ht.
  - unfold on_findNewPartner. rewrite Ht. cbn -[socket_leave socket_to].
    by rewrite lookup_delete_eq.
  - unfold on_findNewPartner. rewrite Ht. cbn. by rewrite Ht.
Qed.





Lemma truthy_text_room x : truthy ("text_" +:+ x) = true.
Proof. done. Qed.





Lemma joinPrivateRoom_other_rooms s a r u r' :
  r' ≠ r →
  privateRooms (fst (on_joinPrivateRoom a r u s)) !! r' = privateRooms s !! r'.
Proof.
  intros Hne. unfold on_joinPrivateRoom. cbn.
  destruct (privateRooms s !! r) as [room|] eqn:Hr; cbn.
  - rewrite Hr. cbn. destruct (decide _); [done|]. by rewrite lookup_insert_ne.
  - rewrite lookup_insert_eq. cbn.
    rewrite decide_False by apply not_elem_of_nil.
    by rewrite !lookup_insert_ne.
Qed.

Lemma joined_ok u ps : NoDup ps → NoDup (joined u ps) ∧ joined u ps ≠ [].
Proof.
  intros Hnd. unfold joined. destruct (decide (u ∈ ps)) as [Hin|Hnin].
  - split; [done|]. intros ->. by apply elem_of_nil in Hin.
  - split.
    + apply NoDup_app. split; [done|]. split; [|apply NoDup_singleton].
      by intros t Ht ->%list_elem_of_singleton.
    + by destruct ps.
Qed.

Lemma room_ok_step i s :
  (∀ r room, privateRooms s !! r = Some room → room_ok room) →
  ∀ r room, privateRooms (fst (step i s)) !! r = Some room → room_ok room.
Proof.
  intros IH r room. unfold step.
  destruct (in_event i) as [|u|u|r0 u|msg|r0 msg sd|k p rid| |].
  - apply IH.
  - unfold on_joinTextChat. cbn.
    destruct (textChatQueue s); apply IH.
  - unfold on_joinVideoChat. cbn.
    destruct (videoChatQueue s); apply IH.
  - destruct (decide (r = r0)) as [->|Hne].
    + rewrite joinPrivateRoom_participants. intros [= <-].
      unfold occupants_after, room_ok. cbn.
      destruct (privateRooms s !! r0) as [room0|] eqn:Hr0; cbn.
      * destruct (IH r0 room0 Hr0) as (Hnd & _ & Hmsg).
        destruct (joined_ok u _ Hnd). by repeat split.
      * destruct (joined_ok u [] (NoDup_nil_2 (A:=string))). by repeat split.
    + rewrite joinPrivateRoom_other_rooms by done. apply IH.
  - unfold on_sendMessage. destruct (truthy_opt _); apply IH.
  - apply IH.
  - unfold on_signal. destruct (truthy_opt _); apply IH.
  - unfold on_findNewPartner. destruct (truthy_opt _); apply IH.
  - unfold on_disconnect. cbn.
    destruct (truthy_opt _); [|apply IH].
    set (r0 := default "" (socketToRoom s !! in_socket i)).
    destruct (privateRooms s !! r0) as [room0|] eqn:Hr0; [|apply IH].
    cbn. destruct (IH r0 room0 Hr0) as (Hnd & _ & Hmsg).
    set (ps := filter _ (participants room0)).
    destruct (decide (length ps = 0)) as [Hl|Hl].
    + destruct (decide (r = r0)) as [->|Hne].
      * by rewrite lookup_delete_eq.
      * rewrite lookup_delete_ne, lookup_insert_ne by done. apply IH.
    + destruct (decide (r = r0)) as [->|Hne].
      * rewrite lookup_insert_eq. intros [= <-]. unfold room_ok. cbn.
        split; [by apply NoDup_filter|]. split; [|done].
        intros E. by rewrite E in Hl.
      * rewrite lookup_insert_ne by done. apply IH.
Qed.

(** X12: in every reachable state each private room in the table lists no
    name twice, lists at least one name, and has an empty message log. *)
Theorem private_rooms_ok (s : State) (r : string) (room : PrivateRoom) :
  reachable s →
  privateRooms s !! r = Some room →
  room_ok room.
Proof.
  intros Hreach. revert r room. revert s Hreach.
  apply (reachable_induction
           (λ s, ∀ r room, privateRooms s !! r = Some room → room_ok room)).
  - intros r room. cbn. by rewrite lookup_empty.
  - intros s i _. apply room_ok_step.
Qed.

(** On [private_run], for the room "AB12CD". *)
Lemma private_rooms_ok_witness :
  reachable (exec init private_run)
  ∧ privateRooms (exec init private_run) !! "AB12CD"
    = Some (mkRoom ["Ann"; "Bob"] [])
  ∧ room_ok (mkRoom ["Ann"; "Bob"] []).
Proof.
  assert (reachable (exec init private_run)) as H by (by exists private_run).
  split; [exact H|]. split; [reflexivity|].
  apply (private_rooms_ok (exec init private_run) "AB12CD" _ H eq_refl).
Defined.

(** X13: [joinPrivateRoom] only ever appends: the room's occupant list
    before the join is a prefix of the list after it, the joiner's name is
    in the list after it, and no other private room changes. *)
Theorem joinPrivateRoom_appends (s : State) (a r u : string) :
  let before := participants (default newRoom (privateRooms s !! r)) in
  let s' := fst (on_joinPrivateRoom a r u s) in
  ∃ after,
    participants <$> privateRooms s' !! r = Some after
    ∧ before `prefix_of` after
    ∧ u ∈ after
    ∧ length after ≤ S (length before)
    ∧ ∀ r', r' ≠ r → privateRooms s' !! r' = privateRooms s !! r'.
Proof.
  intros before s'. exists (joined u before). subst s'.
  split; [by rewrite joinPrivateRoom_participants|].
  unfold joined. destruct (decide (u ∈ before)) as [Hin|Hnin].
  - split; [done|]. split; [done|]. split; [lia|].
    intros r' Hne. by apply joinPrivateRoom_other_rooms.
  - split; [by apply prefix_app_r|].
    split; [apply elem_of_app; right; by left|].
    split; [rewrite length_app; cbn; lia|].
    intros r' Hne. by apply joinPrivateRoom_other_rooms.
Qed.

(** In a run of [joinTextChat] requests alone the queue alternates between
    empty and one entry, and every second request forms a pair. *)
Lemma only_joinTextChat_account tr : ∀ s,
  only_joinTextChat tr →
  length (textChatQueue s) ≤ 1 →
  count_chatMatched (emitted s tr) =
    2 * ((length (textChatQueue s) + length tr) / 2)
  ∧ length (textChatQueue (exec s tr)) =
      (length (textChatQueue s) + length tr) mod 2.
Proof.
  induction tr as [|i tr IH]; intros s Hall Hlen.
  - cbn. rewrite Nat.add_0_r.
    destruct (textChatQueue s) as [|e [|? ?]]; cbn in *; [done|done|lia].
  - apply Forall_cons in Hall as [Hi Hall].
    change (exec s (i :: tr)) with (exec (fst (step i s)) tr).
    cbn [emitted]. rewrite count_chatMatched_app.
    unfold is_joinTextChat in Hi. unfold step.
    destruct (in_event i) as [|u| | | | | | |]; try done.
    destruct (textChatQueue s) as [|p [|? ?]] eqn:Hq; cbn in Hlen; [| |lia].
    + destruct (joinTextChat_enqueue (in_rnd i) (in_socket i) u s Hq)
        as [Hout Hqueue].
      rewrite Hq in Hqueue. cbn in Hqueue.
      destruct (IH (fst (on_joinTextChat (in_rnd i) (in_socket i) u s)) Hall)
        as [IH1 IH2]; [rewrite Hqueue; cbn; lia|].
      rewrite Hout, IH1, IH2, Hqueue. cbn [length].
      change (count_chatMatched []) with 0.
      by rewrite !Nat.add_succ_r.
    + destruct (joinTextChat_match (in_rnd i) (in_socket i) u p [] s Hq)
        as [Hout Hqueue].
      destruct (IH (fst (on_joinTextChat (in_rnd i) (in_socket i) u s)) Hall)
        as [IH1 IH2]; [rewrite Hqueue; cbn; lia|].
      rewrite Hout, IH1, IH2, Hqueue. cbn [length].
      rewrite !count_chatMatched_cons. change (count_chatMatched []) with 0.
      cbn [is_chatMatched snd Nat.add].
      replace (S (S (length tr))) with (length tr + 1 * 2) by lia.
      rewrite Nat.div_add, Nat.Div0.mod_add by lia. lia.
Qed.

(** X14: a run from the initial state that consists of [n] [joinTextChat]
    requests and nothing else emits exactly [2 * (n / 2)] [chatMatched]
    events, one pair for every two requests, and leaves [n mod 2] entries in
    the text queue. *)
Theorem joinTextChat_pairs_exact (tr : list Input) :
  only_joinTextChat tr →
  count_chatMatched (emitted init tr) = 2 * (length tr / 2)
  ∧ length (textChatQueue (exec init tr)) = length tr mod 2.
Proof.
  intros Hall.
  apply (only_joinTextChat_account tr init Hall). cbn. lia.
Qed.

(** On [fifo_run]: four requests, two pairs, nobody left waiting. *)
Lemma joinTextChat_pairs_exact_witness :
  only_joinTextChat fifo_run
  ∧ count_chatMatched (emitted init fifo_run) = 4
  ∧ length (textChatQueue (exec init fifo_run)) = 0.
Proof.
  assert (only_joinTextChat fifo_run) as Hall
    by (repeat constructor).
  split; [exact Hall|].
  apply (joinTextChat_pairs_exact fifo_run Hall).
Defined.

Lemma length_toUpperCase s : String.length (toUpperCase s) = String.length s.
Proof. induction s as [|c s IH]; cbn; [done|]. by rewrite IH. Qed.

Lemma length_substring n m s :
  String.length (String.substring n m s) = Nat.min m (String.length s - n).
Proof.
  revert n m. induction s as [|c s IH]; intros n m.
  - destruct n, m; cbn; lia.
  - destruct n as [|n]; [destruct m as [|m]|]; cbn; [done| |].
    + rewrite IH. lia.
    + by rewrite IH.
Qed.

(** X15: the code [generateRoomId] returns has [min 6 (n - 2)] characters
    for a draw rendered in [n] characters: six when the rendering is long
    enough, fewer when it is short, none for the rendering "0". *)
Theorem generateRoomId_length (rnd : string) :
  String.length (generateRoomId rnd) = Nat.min 6 (String.length rnd - 2).
Proof.
  unfold generateRoomId. by rewrite length_toUpperCase, length_substring.
Qed.

Lemma upper_ascii_code_char c :
  is_base36 c = true → is_code_char (upper_ascii c) = true.
Proof.
  destruct c as [[] [] [] [] [] [] [] []]; vm_compute; done.
Qed.

Lemma string_forall_substring P m s :
  string_forall P s = true →
  string_forall P (String.substring 0 m s) = true.
Proof.
  revert m. induction s as [|c s IH]; intros m H.
  - by destruct m.
  - destruct m as [|m]; [done|]. cbn in *.
    apply andb_true_iff in H as [Hc Hs]. by rewrite Hc, IH.
Qed.

Lemma string_forall_toUpperCase s :
  string_forall is_base36 s = true →
  string_forall is_code_char (toUpperCase s) = true.
Proof.
  induction s as [|c s IH]; [done|]. cbn. intros [Hc Hs]%andb_true_iff.
  by rewrite upper_ascii_code_char, IH.
Qed.

(** X16: for a draw rendered as "0." followed by base-36 digits, the code
    [generateRoomId] returns is made of the first six of those digits (or
    all of them, if fewer), each a decimal digit or an upper-case letter. *)
Theorem generateRoomId_alphabet (digits : string) :
  string_forall is_base36 digits = true →
  generateRoomId ("0." +:+ digits) = toUpperCase (String.substring 0 6 digits)
  ∧ string_forall is_code_char (generateRoomId ("0." +:+ digits)) = true.
Proof.
  intros H. split; [done|].
  change (generateRoomId ("0." +:+ digits))
    with (toUpperCase (String.substring 0 6 digits)).
  by apply string_forall_toUpperCase, string_forall_substring.
Qed.

(** For the draw "0.k3j9x2pq". *)
Lemma generateRoomId_alphabet_witness :
  string_forall is_base36 "k3j9x2pq" = true
  ∧ generateRoomId "0.k3j9x2pq" = "K3J9X2".
Proof.
  split; [reflexivity|].
  exact (proj1 (generateRoomId_alphabet "k3j9x2pq" eq_refl)).
Defined.

(** X17: occupants are removed by display name: when two connections are
    bound to a private room whose list holds the one name both use, the
    [disconnect] of one deletes the room while the other is still bound to
    it. *)
Theorem disconnect_shared_name (s : State) (a b r u : string)
    (room : PrivateRoom) :
  boundRoom s a = Some r →
  socketToUsername s !! a = Some u →
  privateRooms s !! r = Some room →
  participants room = [u] →
  b ≠ a →
  socketToRoom s !! b = Some r →
  privateRooms (fst (on_disconnect a s)) !! r = None
  ∧ socketToRoom (fst (on_disconnect a s)) !! b = Some r.
Proof.
  intros Ha Hu Hroom Hps Hne Hb.
  destruct (disconnect_private_room_table s a r u room Ha Hu Hroom) as [E _].
  rewrite Hps in E. rewrite filter_cons_False, filter_nil in E by tauto.
  split; [exact E|].
  destruct (disconnect_fields a s) as (_ & _ & -> & _).
  by rewrite lookup_delete_ne.
Qed.

(** Two clients of the shipped private-room page, both "Anonymous". *)
Lemma disconnect_shared_name_witness :
  let s := exec init [ mkInput "sockA" connection "";
                       mkInput "sockB" connection "";
                       mkInput "sockA" (joinPrivateRoom "AB12CD" "Anonymous") "";
                       mkInput "sockB" (joinPrivateRoom "AB12CD" "Anonymous") "" ] in
  boundRoom s "sockA" = Some "AB12CD"
  ∧ privateRooms s !! "AB12CD" = Some (mkRoom ["Anonymous"] [])
  ∧ privateRooms (fst (on_disconnect "sockA" s)) !! "AB12CD" = None
  ∧ socketToRoom (fst (on_disconnect "sockA" s)) !! "sockB" = Some "AB12CD".
Proof.
  intros s.
  assert ("sockB" ≠ "sockA") as Hne by discriminate.
  split; [reflexivity|]. split; [reflexivity|].
  apply (disconnect_shared_name s "sockA" "sockB" "AB12CD" "Anonymous"
           (mkRoom ["Anonymous"] []) eq_refl eq_refl eq_refl eq_refl Hne
           eq_refl).
Defined.





